(** * Token swap escrow contracts (ink!): shallow embedding

    Two contracts of the repository are modelled:
    - [Partial]: [src/SmartContract/lib.rs] (ink! 4, partial fills,
      optional delegate contract, typed [Result] errors);
    - [SingleShot]: [src/lib.rs] (ink! 3, single-shot acceptance,
      [assert!]/[expect] style aborts).

    Integers are [Z]; [Balance] is [u128], [BlockNumber] is [u32],
    [Timestamp] and the swap counter are [u64].  An unchecked Rust [+] on
    such a type is modelled with overflow checks enabled (as
    cargo-contract builds contracts): an overflow panics, i.e. the call
    traps.  A trapped call is [Trapped]: the host reverts it, so it has no
    state of its own.

    Cross-contract calls are answered by an oracle that sees the list of
    calls issued so far and the call being made; the contract's storage is
    not touched by the callee (ink! forbids re-entry by default).  Every
    call issued is appended to the state's call log, which is how the
    theorems observe transfers and their order. *)

From stdpp Require Import base gmap list.
From Stdlib Require Import ZArith Lia.

Open Scope Z_scope.

(** ** A state monad with traps *)

Inductive outcome (S A : Type) : Type :=
| Done (s : S) (a : A)
| Trapped.
Arguments Done {S A} s a.
Arguments Trapped {S A}.

Definition M (S A : Type) : Type := S -> outcome S A.

Definition ret {S A} (a : A) : M S A := fun s => Done s a.

Definition bind {S A B} (m : M S A) (k : A -> M S B) : M S B :=
  fun s => match m s with
           | Done s' a => k a s'
           | Trapped => Trapped
           end.

Definition trap {S A} : M S A := fun _ => Trapped.

Definition get {S} : M S S := fun s => Done s s.

Definition modify {S} (f : S -> S) : M S unit := fun s => Done (f s) tt.

Declare Scope swap_monad_scope.
Notation "x <- m ;; k" := (bind m (fun x => k))
  (at level 95, m at next level, right associativity) : swap_monad_scope.
Notation "m ;;; k" := (bind m (fun _ => k))
  (at level 95, right associativity) : swap_monad_scope.
Open Scope swap_monad_scope.

Definition u32_max : Z := 2 ^ 32 - 1.
Definition u64_max : Z := 2 ^ 64 - 1.
Definition u128_max : Z := 2 ^ 128 - 1.

(** [checked_add] on an unsigned type bounded by [max]. *)
Definition checked_add (max x y : Z) : option Z :=
  if x + y <=? max then Some (x + y) else None.

(** Rust's [+] with overflow checks: panics on overflow. *)
Definition add_checked_or_panic {S} (max x y : Z) : M S Z :=
  match checked_add max x y with
  | Some z => ret z
  | None => trap
  end.

(** [assert!(b)] *)
Definition assert {S} (b : bool) : M S unit :=
  if b then ret tt else trap.

(** ** The partial-fill contract, [src/SmartContract/lib.rs] *)

Module Partial.

(** [pub type Swap = (AccountId, AccountId, AccountId, Balance, Balance,
    BlockNumber, Balance, Balance, Option<AccountId>)]; the positional
    fields are named after their use in [accept_swap]. *)
Record Swap := mkSwap {
  creator : Z;           (* .0 *)
  token_a : Z;           (* .1 *)
  token_b : Z;           (* .2 *)
  amount_a : Z;          (* .3 *)
  amount_b : Z;          (* .4 *)
  expiration : Z;        (* .5 *)
  accepted_a : Z;        (* .6 *)
  accepted_b : Z;        (* .7 *)
  allowed_acceptor : option Z  (* .8 *)
}.

Inductive Error :=
| SwapNotFound
| InsufficientBalance
| Unauthorized
| SwapExpired
| TransferFailed
| CallFailed
| DelegateFailed
| DelegateFunctionFailed.

#[global] Instance Error_eq_dec : EqDecision Error.
Proof. solve_decision. Defined.

(** [core::result::Result<T, Error>] *)
Inductive result (A : Type) :=
| Ok (a : A)
| Err (e : Error).
Arguments Ok {A} a.
Arguments Err {A} e.

(** The cross-contract calls the contract issues ([build_call ... try_invoke]). *)
Inductive ExtCall :=
| CallBalanceOf (token account : Z)                    (* "balance_of" *)
| CallTransfer (token from to amount : Z)              (* "transfer" *)
| CallCreateSwapDelegate (delegate token_a token_b amount_a amount_b duration : Z).
                                                       (* "create_swap_delegate" *)

(** The value of [try_invoke]:
    [Result<Result<R, LangError>, ink_env::Error>]. *)
Inductive invoke_result :=
| InvokeOk (v : Z)        (* Ok(Ok(v)); for [()] returns, v is ignored *)
| InvokeLangErr           (* Ok(Err(LangError)) *)
| InvokeEnvErr.           (* Err(ink_env::Error) *)

Definition Oracle := list ExtCall -> ExtCall -> invoke_result.

Inductive Event :=
| SwapCreated (id creator : Z)
| SwapAccepted (id acceptor : Z)
| SwapDeleted (id : Z).

(** Storage of [TokenSwap], with the calls issued and the events emitted. *)
Record State := mkState {
  swaps : gmap Z Swap;
  swap_count : Z;
  delegated_contract : option Z;
  owner : Z;
  calls : list ExtCall;
  events : list Event
}.

(** What [self.env()] answers during one message. *)
Record Env := mkEnv {
  env_caller : Z;
  env_account_id : Z;
  env_block_number : Z
}.

Definition set_swaps (m : gmap Z Swap) (s : State) : State :=
  mkState m (swap_count s) (delegated_contract s) (owner s) (calls s) (events s).
Definition set_swap_count (n : Z) (s : State) : State :=
  mkState (swaps s) n (delegated_contract s) (owner s) (calls s) (events s).
Definition set_delegated (d : option Z) (s : State) : State :=
  mkState (swaps s) (swap_count s) d (owner s) (calls s) (events s).
Definition log_call (c : ExtCall) (s : State) : State :=
  mkState (swaps s) (swap_count s) (delegated_contract s) (owner s)
    (calls s ++ [c]) (events s).
Definition emit_event (e : Event) : M State unit :=
  modify (fun s => mkState (swaps s) (swap_count s) (delegated_contract s)
                     (owner s) (calls s) (events s ++ [e])).

(** The [?] operator on [Result]. *)
Definition bindR {A B} (m : M State (result A)) (k : A -> M State (result B))
  : M State (result B) :=
  bind m (fun r => match r with
                   | Ok a => k a
                   | Err e => ret (Err e)
                   end).
Notation "x <-? m ;; k" := (bindR m (fun x => k))
  (at level 95, m at next level, right associativity) : swap_monad_scope.

Section Contract.
Variable env : Env.
Variable answer : Oracle.

(** Issue a cross-contract call: the oracle answers from the history. *)
Definition invoke (c : ExtCall) : M State invoke_result :=
  fun s => Done (log_call c s) (answer (calls s) c).

(** [TokenSwap::new]: the owner is the caller. *)
Definition new : State :=
  mkState ∅ 0 None (env_caller env) [] [].

(** [set_delegated_contract]: silently returns unless the caller is the owner. *)
Definition set_delegated_contract (contract : Z) : M State unit :=
  s <- get ;;
  if bool_decide (env_caller env = owner s) then
    modify (set_delegated (Some contract))
  else ret tt.

(** [get_balance] *)
Definition get_balance (token_contract account : Z) : M State (result Z) :=
  r <- invoke (CallBalanceOf token_contract account) ;;
  ret match r with
      | InvokeOk balance => Ok balance
      | InvokeLangErr => Err InsufficientBalance
      | InvokeEnvErr => Err CallFailed
      end.

(** [transfer_token] *)
Definition transfer_token (token_contract from to amount : Z) : M State (result unit) :=
  r <- invoke (CallTransfer token_contract from to amount) ;;
  ret match r with
      | InvokeOk _ => Ok tt
      | InvokeLangErr => Err TransferFailed
      | InvokeEnvErr => Err CallFailed
      end.

(** [x.checked_add(y).ok_or(Error::CallFailed)?] *)
Definition checked_add_or (max x y : Z) (e : Error) : M State (result Z) :=
  ret match checked_add max x y with
      | Some z => Ok z
      | None => Err e
      end.

(** [create_swap] *)
Definition create_swap (token_a token_b amount_a amount_b duration : Z)
    (allowed_acceptor : option Z) : M State (result Z) :=
  s0 <- get ;;
  match delegated_contract s0 with
  | Some delegate =>
      nested_result <- invoke (CallCreateSwapDelegate delegate token_a token_b
                                 amount_a amount_b duration) ;;
      match nested_result with
      | InvokeOk _ => s <- get ;; ret (Ok (swap_count s))
      | InvokeLangErr => ret (Err DelegateFunctionFailed)
      | InvokeEnvErr => ret (Err DelegateFailed)
      end
  | None =>
      let caller := env_caller env in
      balance_a <-? get_balance token_a caller ;;
      if balance_a <? amount_a then ret (Err InsufficientBalance) else
      balance_b <-? get_balance token_b caller ;;
      if balance_b <? amount_b then ret (Err InsufficientBalance) else
      _ <-? transfer_token token_a caller (env_account_id env) amount_a ;;
      expiration <-? checked_add_or u32_max (env_block_number env) duration CallFailed ;;
      let new_swap := mkSwap caller token_a token_b amount_a amount_b expiration
                        0 0 allowed_acceptor in
      s1 <- get ;;
      modify (set_swaps (<[swap_count s1 := new_swap]> (swaps s1))) ;;;
      let id := swap_count s1 in
      count' <-? checked_add_or u64_max (swap_count s1) 1 CallFailed ;;
      modify (set_swap_count count') ;;;
      emit_event (SwapCreated id caller) ;;;
      ret (Ok id)
  end.

(** [delete_swap] *)
Definition delete_swap (swap_id : Z) : M State (result unit) :=
  s <- get ;;
  match swaps s !! swap_id with
  | None => ret (Err SwapNotFound)
  | Some swap_data =>
      if bool_decide (env_caller env <> creator swap_data) then ret (Err Unauthorized)
      else
        modify (set_swaps (delete swap_id (swaps s))) ;;;
        emit_event (SwapDeleted swap_id) ;;;
        ret (Ok tt)
  end.

(** [accept_swap]: the tuple fields are read positionally, as the source
    does with [swap_data.0 .. swap_data.8];
    [amount_a + accepted_a > required_a || ...] short-circuits. *)
Definition accept_swap (swap_id amount_a amount_b : Z) : M State (result unit) :=
  s <- get ;;
  match swaps s !! swap_id with
  | None => ret (Err SwapNotFound)
  | Some (mkSwap creator token_a token_b required_a required_b expiration
            accepted_a accepted_b allowed_acceptor) =>
      let caller := env_caller env in
      if (match allowed_acceptor with
          | Some allowed => bool_decide (caller <> allowed)
          | None => false
          end) then ret (Err Unauthorized) else
      if env_block_number env >? expiration then ret (Err SwapExpired) else
      sum_a <- add_checked_or_panic u128_max amount_a accepted_a ;;
      exceeds <- (if sum_a >? required_a then ret true else
                    sum_b <- add_checked_or_panic u128_max amount_b accepted_b ;;
                    ret (sum_b >? required_b)) ;;
      if exceeds then ret (Err InsufficientBalance) else
      _ <-? transfer_token token_a caller creator amount_a ;;
      _ <-? transfer_token token_b caller creator amount_b ;;
      new_a <- add_checked_or_panic u128_max accepted_a amount_a ;;
      new_b <- add_checked_or_panic u128_max accepted_b amount_b ;;
      let updated_swap := mkSwap creator token_a token_b required_a required_b
                            expiration new_a new_b allowed_acceptor in
      s' <- get ;;
      modify (set_swaps (<[swap_id := updated_swap]> (swaps s'))) ;;;
      emit_event (SwapAccepted swap_id caller) ;;;
      ret (Ok tt)
  end.

End Contract.
End Partial.

(** ** How ink! 4 delivers a cross-contract call

    The value [try_invoke] hands to the partial-fill contract is produced by
    the ink! environment, not by the contract: [ink_env]'s [invoke_contract]
    issues [seal_call]; when the callee returned normally or with the revert
    flag it decodes the callee's output with [DecodeAll] as
    [MessageResult<R> = Result<R, LangError>] (a decoding failure is
    [Err(ink_env::Error::Decode)]), and any other outcome of [seal_call]
    (no contract there, callee trapped) is [Err(ink_env::Error)].  On the
    callee's side, the dispatcher generated by [#[ink::contract]] answers an
    input it cannot decode (unknown selector, bad arguments) with
    [Err(LangError::CouldNotReadInput)] and the revert flag; otherwise it
    runs the message and returns [Ok(value)], with the revert flag when the
    value is a [Result::Err].  A panic in the message traps. *)

Module InkCall.
Import Partial.

(** [LangError::CouldNotReadInput = 1]: its SCALE index. *)
Definition lang_error_index : Z := 1.

(** SCALE encoding of a [u128]: 16 bytes, little-endian. *)
Fixpoint le_value (l : list Z) : Z :=
  match l with
  | [] => 0
  | b :: l' => b + 256 * le_value l'
  end.

Definition is_byte (b : Z) : bool := (0 <=? b) && (b <? 256).

(** [DecodeAll] of the [R] of [.returns::<R>()], from the bytes that follow
    the [Ok] tag: [()] is empty, [Balance] is 16 bytes. *)
Definition decode_unit (rest : list Z) : option Z :=
  match rest with
  | [] => Some 0
  | _ => None
  end.

Definition decode_balance (rest : list Z) : option Z :=
  if (length rest =? 16)%nat && forallb is_byte rest then Some (le_value rest) else None.

(** [DecodeAll] of [Result<R, LangError>]: tag 0 is [Ok], tag 1 is [Err]. *)
Definition decode_message_result (decode_ok : list Z -> option Z) (out : list Z)
    : option invoke_result :=
  match out with
  | tag :: rest =>
      if tag =? 0 then option_map InvokeOk (decode_ok rest)
      else if tag =? 1 then
        (if bool_decide (rest = [lang_error_index]) then Some InvokeLangErr else None)
      else None
  | [] => None
  end.

(** What [seal_call] reports about the callee. *)
Inductive callee_reply :=
| CalleeMissing                                    (* no contract at the address *)
| CalleeTrapped                                    (* panic, failed assert, out of gas *)
| CalleeReturned (reverted : bool) (output : list Z).   (* seal_return(flags, output) *)

(** [invoke_contract]: [Ok(())] and [CalleeReverted] decode the output,
    every other return code is [Err(ink_env::Error)]. *)
Definition try_invoke (decode_ok : list Z -> option Z) (r : callee_reply) : invoke_result :=
  match r with
  | CalleeReturned _ out =>
      match decode_message_result decode_ok out with
      | Some v => v
      | None => InvokeEnvErr                         (* Err(Error::Decode) *)
      end
  | CalleeMissing | CalleeTrapped => InvokeEnvErr
  end.

(** The [R] each call of the contract declares with [.returns::<R>()]. *)
Definition returns (c : ExtCall) : list Z -> option Z :=
  match c with
  | CallBalanceOf _ _ => decode_balance             (* .returns::<Balance>() *)
  | CallTransfer _ _ _ _ => decode_unit             (* .returns::<()>() *)
  | CallCreateSwapDelegate _ _ _ _ _ _ => decode_unit   (* .returns::<()>() *)
  end.

(** The answers the contract sees when its callees reply with [reply]. *)
Definition chain_answer (reply : list ExtCall -> ExtCall -> callee_reply) : Oracle :=
  fun h c => try_invoke (returns c) (reply h c).

(** A message body run by an ink! callee: it panics, or it returns the
    SCALE encoding of its value and whether that value is a [Result::Err]. *)
Inductive message_run :=
| MessagePanics
| MessageReturns (value : list Z) (is_err : bool).

(** The dispatcher of an ink! callee. *)
Definition dispatch (input_decodes : bool) (m : message_run) : callee_reply :=
  if input_decodes then
    match m with
    | MessagePanics => CalleeTrapped
    | MessageReturns value is_err => CalleeReturned is_err (0 :: value)
    end
  else CalleeReturned true [1; lang_error_index].

End InkCall.

(** ** The single-shot contract, [src/lib.rs] *)

Module SingleShot.

(** [pub struct Swap] *)
Record Swap := mkSwap {
  creator : Z;
  token_a : Z;
  token_b : Z;
  amount_a : Z;
  amount_b : Z;
  expiration : Z
}.

(** The cross-contract calls ([build_call ... fire()]). *)
Inductive ExtCall :=
| CallBalanceOf (token account : Z)                    (* "balance_of" *)
| CallTransferFrom (token from to amount : Z).         (* "transfer_from" *)

(** [fire()] gives [Result<R, ink_env::Error>]: [Some v] is [Ok(v)], [None]
    is any [ink_env::Error]. *)
Definition Oracle := list ExtCall -> ExtCall -> option Z.

(** Storage ([swaps: BTreeMap<Hash, Swap>], [swap_count]) and the calls
    issued, each with the registry as it was when the call was made.  A
    [Hash] is its list of 32 bytes. *)
Record State := mkState {
  swaps : gmap (list Z) Swap;
  swap_count : Z;
  calls : list (ExtCall * gmap (list Z) Swap)
}.

Record Env := mkEnv {
  env_caller : Z;
  env_block_timestamp : Z
}.

Definition set_swaps (m : gmap (list Z) Swap) (s : State) : State :=
  mkState m (swap_count s) (calls s).
Definition set_swap_count (n : Z) (s : State) : State :=
  mkState (swaps s) n (calls s).

(** [n.to_be_bytes()] on [k] bytes. *)
Fixpoint be_bytes (k : nat) (n : Z) : list Z :=
  match k with
  | O => []
  | S k' => be_bytes k' (n / 256) ++ [n mod 256]
  end.

(** The swap id: [swap_count.to_be_bytes()] in the first 8 of 32 zero bytes. *)
Definition hash_of_count (n : Z) : list Z :=
  be_bytes 8 n ++ replicate 24 0.

(** [.unwrap_or_default()] on a [Balance]. *)
Definition unwrap_or_default (r : option Z) : Z :=
  match r with
  | Some v => v
  | None => 0
  end.

Section Contract.
Variable env : Env.
Variable answer : Oracle.

(** Issue a cross-contract call and [fire()] it. *)
Definition fire (c : ExtCall) : M State (option Z) :=
  fun s => Done (mkState (swaps s) (swap_count s) (calls s ++ [(c, swaps s)]))
                (answer (map fst (calls s)) c).

(** [TokenSwap::new] *)
Definition new : State := mkState ∅ 0 [].

(** [create_swap] *)
Definition create_swap (token_a token_b amount_a amount_b duration : Z)
    : M State (list Z) :=
  let caller := env_caller env in
  r <- fire (CallBalanceOf token_a caller) ;;
  let balance_a := unwrap_or_default r in
  assert (amount_a <=? balance_a) ;;;
  s <- get ;;
  let swap_id := hash_of_count (swap_count s) in
  expiration <- add_checked_or_panic u64_max (env_block_timestamp env) duration ;;
  let new_swap := mkSwap caller token_a token_b amount_a amount_b expiration in
  modify (set_swaps (<[swap_id := new_swap]> (swaps s))) ;;;
  count' <- add_checked_or_panic u64_max (swap_count s) 1 ;;
  modify (set_swap_count count') ;;;
  ret swap_id.

(** [delete_swap] *)
Definition delete_swap (swap_id : list Z) : M State unit :=
  let caller := env_caller env in
  s <- get ;;
  match swaps s !! swap_id with
  | None => trap                                (* expect("Swap not found") *)
  | Some swap =>
      assert (bool_decide (caller = creator swap)) ;;;
      modify (set_swaps (delete swap_id (swaps s)))
  end.

(** [accept_swap].  The second balance check of the source compares with a
    name [amount_a] that is not bound in [accept_swap]; it is read as the
    swap's [amount_a], the only such name in scope of the swap. *)
Definition accept_swap (swap_id : list Z) : M State unit :=
  s <- get ;;
  match swaps s !! swap_id with
  | None => trap                                (* expect("Swap not found") *)
  | Some swap =>
      let caller := env_caller env in
      rb <- fire (CallBalanceOf (token_b swap) caller) ;;
      let balance_b := unwrap_or_default rb in
      assert (amount_b swap <=? balance_b) ;;;
      ra <- fire (CallBalanceOf (token_a swap) caller) ;;
      let balance_a := unwrap_or_default ra in
      assert (amount_a swap <=? balance_a) ;;;
      let current_time := env_block_timestamp env in
      assert (current_time <=? expiration swap) ;;;
      fire (CallTransferFrom (token_a swap) caller (token_b swap) (amount_a swap)) ;;;
      fire (CallTransferFrom (token_b swap) caller (token_a swap) (amount_b swap)) ;;;
      s' <- get ;;
      modify (set_swaps (delete swap_id (swaps s')))
  end.

End Contract.
End SingleShot.

(** ** Concrete runs used by witnesses and counterexamples *)

Module Scenarios.
Import Partial.

(** The creator (account 1) and an acceptor (account 2); the contract is
    account 100; token A is account 7, token B account 8. *)
Definition env_creator : Env := mkEnv 1 100 0.
Definition env_acceptor : Env := mkEnv 2 100 5.

(** Every token call succeeds; balances are 1000. *)
Definition all_ok : Oracle := fun _ c =>
  match c with
  | CallBalanceOf _ _ => InvokeOk 1000
  | _ => InvokeOk 0
  end.

(** As [all_ok], but every transfer of token B answers [Ok(Err(LangError))]. *)
Definition token_b_rejects : Oracle := fun _ c =>
  match c with
  | CallBalanceOf _ _ => InvokeOk 1000
  | CallTransfer 8 _ _ _ => InvokeLangErr
  | _ => InvokeOk 0
  end.

(** Every balance query answers 10; transfers succeed. *)
Definition low_balance : Oracle := fun _ c =>
  match c with
  | CallBalanceOf _ _ => InvokeOk 10
  | _ => InvokeOk 0
  end.

(** Deployment, then a local swap of 50 A for 100 B lasting 10 blocks. *)
Definition deployed : State := new env_creator.

Definition after_outcome {A} (o : outcome State A) : State :=
  match o with
  | Done s _ => s
  | Trapped => deployed
  end.

Definition created : State :=
  after_outcome (create_swap env_creator all_ok 7 8 50 100 10 None deployed).

(** The creator cancels swap 0. *)
Definition deleted : State :=
  after_outcome (delete_swap env_creator 0 created).

(** The acceptor fills swap 0 completely. *)
Definition filled : State :=
  after_outcome (accept_swap env_acceptor all_ok 0 50 100 created).

(** The acceptor fills 1 of token A and 0 of token B. *)
Definition filled_once : State :=
  after_outcome (accept_swap env_acceptor all_ok 0 1 0 created).

(** A creator calling at the last [u32] block number. *)
Definition env_last_block : Env := mkEnv 1 100 u32_max.

(** The same deployment with a delegate contract (account 50) configured. *)
Definition delegated : State :=
  after_outcome (set_delegated_contract env_creator 50 deployed).

End Scenarios.

(** ** Facts about the partial-fill contract *)

Module PartialFacts.
Import Partial InkCall Scenarios.

Ltac run_cbn :=
  cbv [bind ret get modify trap bindR invoke get_balance transfer_token
       checked_add_or add_checked_or_panic emit_event log_call set_swaps
       set_swap_count] in *.

Ltac run_step :=
  match goal with
  | H : Done _ _ = Done _ _ |- _ => injection H; clear H; intros; subst
  | H : Trapped = Done _ _ |- _ => discriminate H
  | H : Done _ _ = Trapped |- _ => discriminate H
  | H : Ok _ = Ok _ |- _ => injection H; clear H; intros; subst
  | H : Some _ = Some _ |- _ => injection H; clear H; intros; subst
  | H : context [match ?x with _ => _ end] |- _ => destruct x eqn:?
  end.

Ltac run := repeat (progress run_cbn || run_step);
  cbn [calls swaps swap_count events delegated_contract owner] in *.

(** Close [calls s' = calls s ++ ?l /\ Forall P ?l] down to one goal per
    logged call. *)
Ltac log_suffix :=
  first [ exists []; split; [rewrite app_nil_r; reflexivity | constructor]
        | eexists; split; [rewrite <- ?app_assoc; reflexivity |];
          cbn [app]; repeat apply List.Forall_cons; try apply List.Forall_nil ].

(** C5.  With no delegate configured, when the creator's queried balance of
    token A is below [amount_a], [create_swap] returns [InsufficientBalance]
    after that single query: the registry and [swap_count] are unchanged and
    no transfer is issued. *)
Theorem create_swap_insufficient_balance_a env answer s token_a token_b
    amount_a amount_b duration allowed bal
    (Hnodelegate : delegated_contract s = None)
    (Hbal : answer (calls s) (CallBalanceOf token_a (env_caller env)) = InvokeOk bal)
    (Hlt : bal < amount_a) :
  create_swap env answer token_a token_b amount_a amount_b duration allowed s =
    Done (log_call (CallBalanceOf token_a (env_caller env)) s) (Err InsufficientBalance)
  /\ swaps (log_call (CallBalanceOf token_a (env_caller env)) s) = swaps s
  /\ swap_count (log_call (CallBalanceOf token_a (env_caller env)) s) = swap_count s
  /\ calls (log_call (CallBalanceOf token_a (env_caller env)) s)
       = calls s ++ [CallBalanceOf token_a (env_caller env)].
Proof.
  unfold create_swap, bind, get. rewrite Hnodelegate.
  cbn [bindR bind get_balance invoke ret]. rewrite Hbal.
  apply Z.ltb_lt in Hlt. rewrite Hlt.
  repeat split.
Qed.

Lemma create_swap_insufficient_balance_a_witness :
  delegated_contract deployed = None /\
  low_balance (calls deployed) (CallBalanceOf 7 (env_caller env_creator)) = InvokeOk 10 /\
  10 < 50 /\
  create_swap env_creator low_balance 7 8 50 100 10 None deployed =
    Done (log_call (CallBalanceOf 7 (env_caller env_creator)) deployed) (Err InsufficientBalance).
Proof.
  split; [reflexivity |]. split; [reflexivity |]. split; [lia |].
  apply (create_swap_insufficient_balance_a env_creator low_balance deployed 7 8 50 100 10
           None 10); [reflexivity | reflexivity | lia].
Defined.

(** C7, as stated, does not hold.  [get_balance] and [transfer_token] turn
    [Err(ink_env::Error)] into [CallFailed] and [Ok(Err(LangError))] into
    [InsufficientBalance] or [TransferFailed].  A token that runs the call
    and rejects it (its message panics, or returns [Err(e)] from a
    [Result]-valued message) reaches the contract as [Err(ink_env::Error)]:
    the transfer or query surfaces [CallFailed].  [Ok(Err(LangError))] is
    what a token sends back when it cannot read the call (the input does not
    decode): that dispatch failure surfaces [TransferFailed] or
    [InsufficientBalance].  A token whose [()]-valued [transfer] returns
    normally gives [Ok(())]. *)
Theorem gateway_maps_rejection_to_call_failed s token account from to amount enc_e m :
  let at_callee r := chain_answer (fun _ _ => r) in
  transfer_token (at_callee (dispatch true MessagePanics)) token from to amount s
    = Done (log_call (CallTransfer token from to amount) s) (Err CallFailed)
  /\ transfer_token (at_callee (dispatch true (MessageReturns (1 :: enc_e) true)))
       token from to amount s
    = Done (log_call (CallTransfer token from to amount) s) (Err CallFailed)
  /\ get_balance (at_callee (dispatch true MessagePanics)) token account s
    = Done (log_call (CallBalanceOf token account) s) (Err CallFailed)
  /\ transfer_token (at_callee (dispatch false m)) token from to amount s
    = Done (log_call (CallTransfer token from to amount) s) (Err TransferFailed)
  /\ get_balance (at_callee (dispatch false m)) token account s
    = Done (log_call (CallBalanceOf token account) s) (Err InsufficientBalance)
  /\ transfer_token (at_callee (dispatch true (MessageReturns [] false))) token from to amount s
    = Done (log_call (CallTransfer token from to amount) s) (Ok tt).
Proof.
  intros at_callee. subst at_callee.
  repeat split; reflexivity.
Qed.

(** C8, as stated, does not hold.  With a delegate configured,
    [create_swap] issues only the [create_swap_delegate] call, and whatever
    it answers the registry, [swap_count] and the events stay as they were.
    But a delegate that cannot read the call (its input does not decode)
    yields [DelegateFunctionFailed], while a delegate that runs the call and
    reports failure (it panics, or returns [Err(e)] from a [Result]-valued
    message) yields [DelegateFailed].  A delegate whose [()]-valued entry
    point returns normally gives [Ok(swap_count)]. *)
Theorem create_swap_delegate_failure_mapping env s delegate token_a token_b amount_a
    amount_b duration allowed enc_e m
    (Hdelegate : delegated_contract s = Some delegate) :
  let c := CallCreateSwapDelegate delegate token_a token_b amount_a amount_b duration in
  let at_delegate r := chain_answer (fun _ _ => r) in
  create_swap env (at_delegate (dispatch false m))
    token_a token_b amount_a amount_b duration allowed s
    = Done (log_call c s) (Err DelegateFunctionFailed)
  /\ create_swap env (at_delegate (dispatch true MessagePanics))
       token_a token_b amount_a amount_b duration allowed s
    = Done (log_call c s) (Err DelegateFailed)
  /\ create_swap env (at_delegate (dispatch true (MessageReturns (1 :: enc_e) true)))
       token_a token_b amount_a amount_b duration allowed s
    = Done (log_call c s) (Err DelegateFailed)
  /\ create_swap env (at_delegate (dispatch true (MessageReturns [] false)))
       token_a token_b amount_a amount_b duration allowed s
    = Done (log_call c s) (Ok (swap_count s))
  /\ (forall answer s' r,
        create_swap env answer token_a token_b amount_a amount_b duration allowed s
          = Done s' r ->
        swaps s' = swaps s /\ swap_count s' = swap_count s /\ events s' = events s
        /\ calls s' = calls s ++ [c]).
Proof.
  intros c at_delegate.
  assert (E : forall answer,
    create_swap env answer token_a token_b amount_a amount_b duration allowed s
    = Done (log_call c s) (match answer (calls s) c with
                           | InvokeOk _ => Ok (swap_count s)
                           | InvokeLangErr => Err DelegateFunctionFailed
                           | InvokeEnvErr => Err DelegateFailed
                           end)).
  { intros answer. subst c. unfold create_swap, bind, get, invoke, ret. rewrite Hdelegate.
    destruct (answer _ _); reflexivity. }
  rewrite !E. subst at_delegate.
  split; [reflexivity | split; [reflexivity | split; [reflexivity | split; [reflexivity |]]]].
  intros answer s' r H. rewrite E in H. injection H; intros; subst; repeat split.
Qed.

Lemma create_swap_delegate_failure_mapping_witness :
  delegated_contract delegated = Some 50 /\
  create_swap env_creator (chain_answer (fun _ _ => dispatch false MessagePanics))
    7 8 50 100 10 None delegated
    = Done (log_call (CallCreateSwapDelegate 50 7 8 50 100 10) delegated)
           (Err DelegateFunctionFailed).
Proof.
  split; [reflexivity |].
  exact (proj1 (create_swap_delegate_failure_mapping env_creator delegated 50 7 8 50 100 10
                  None [] MessagePanics eq_refl)).
Defined.

(** C9.  Whenever [accept_swap] returns an error (whichever it is, also when
    the first transfer already succeeded and the second failed), the
    registry and [swap_count] are as before the call. *)
Theorem accept_swap_error_keeps_registry env answer s swap_id fill_a fill_b s' e
    (Herr : accept_swap env answer swap_id fill_a fill_b s = Done s' (Err e)) :
  swaps s' = swaps s /\ swap_count s' = swap_count s.
Proof.
  unfold accept_swap in Herr. unfold bind at 1, get in Herr.
  destruct (swaps s !! swap_id) as [[] |]; run; try congruence; auto.
Qed.

Lemma accept_swap_error_keeps_registry_witness :
  accept_swap env_acceptor token_b_rejects 0 20 40 created
    = Done (after_outcome (accept_swap env_acceptor token_b_rejects 0 20 40 created))
           (Err TransferFailed)
  /\ swaps (after_outcome (accept_swap env_acceptor token_b_rejects 0 20 40 created))
       = swaps created
  /\ swap_count (after_outcome (accept_swap env_acceptor token_b_rejects 0 20 40 created))
       = swap_count created.
Proof.
  assert (H : accept_swap env_acceptor token_b_rejects 0 20 40 created
    = Done (after_outcome (accept_swap env_acceptor token_b_rejects 0 20 40 created))
           (Err TransferFailed)) by (vm_compute; reflexivity).
  split; [exact H |].
  exact (accept_swap_error_keeps_registry env_acceptor token_b_rejects created 0 20 40 _ _ H).
Defined.


(** C1 (as amended).  With no delegate, a successful [create_swap]
    escrows exactly [amount_a] of token A by a transfer from its caller to
    the contract's own account and stores the record under the returned id.
    Whatever it returns, [create_swap] issues a prefix of: the two balance
    queries, then that escrow transfer (or, with a delegate, only the
    delegate call), so the escrow is the only transfer it ever issues.
    [delete_swap] and [set_delegated_contract] issue no cross-contract call.
    Whatever it returns, [accept_swap] issues a prefix of: the transfer of
    [fill_a] of the swap's token A, then of [fill_b] of its token B, both
    from its caller to the swap's creator.  So no operation moves the
    escrowed token A out of the contract's account. *)
Theorem custody_flow env answer :
  (forall s s' id token_a token_b amount_a amount_b duration allowed,
     delegated_contract s = None ->
     create_swap env answer token_a token_b amount_a amount_b duration allowed s
       = Done s' (Ok id) ->
     calls s' = calls s ++ [CallBalanceOf token_a (env_caller env);
                            CallBalanceOf token_b (env_caller env);
                            CallTransfer token_a (env_caller env) (env_account_id env) amount_a]
     /\ exists sw, swaps s' !! id = Some sw /\ Partial.creator sw = env_caller env
                  /\ Partial.token_a sw = token_a /\ Partial.amount_a sw = amount_a)
  /\ (forall s s' r token_a token_b amount_a amount_b duration allowed,
     create_swap env answer token_a token_b amount_a amount_b duration allowed s
       = Done s' r ->
     match delegated_contract s with
     | Some d =>
         calls s' = calls s ++ [CallCreateSwapDelegate d token_a token_b amount_a amount_b
                                  duration]
     | None =>
         exists n, calls s' = calls s ++
           firstn n [CallBalanceOf token_a (env_caller env);
                     CallBalanceOf token_b (env_caller env);
                     CallTransfer token_a (env_caller env) (env_account_id env) amount_a]
     end)
  /\ (forall s s' r swap_id,
     delete_swap env swap_id s = Done s' r -> calls s' = calls s)
  /\ (forall s s' contract,
     set_delegated_contract env contract s = Done s' tt -> calls s' = calls s)
  /\ (forall s s' r swap_id fill_a fill_b,
     accept_swap env answer swap_id fill_a fill_b s = Done s' r ->
     exists n, calls s' = calls s ++
       firstn n (match swaps s !! swap_id with
                 | Some sw =>
                     [CallTransfer (Partial.token_a sw) (env_caller env) (Partial.creator sw)
                        fill_a;
                      CallTransfer (Partial.token_b sw) (env_caller env) (Partial.creator sw)
                        fill_b]
                 | None => []
                 end)).
Proof.
  split; [| split; [| split; [| split]]].
  - intros s s' id ta tb aa ab dur acc Hd H.
    unfold create_swap, bind at 1, get in H. rewrite Hd in H. run; try congruence.
    cbn [calls swaps]. split.
    + rewrite <- !app_assoc. reflexivity.
    + eexists. split; [apply lookup_insert_eq |]. auto.
  - intros s s' r ta tb aa ab dur acc H.
    unfold create_swap, bind at 1, get in H.
    destruct (delegated_contract s) eqn:Hd; run; try congruence.
    all: try reflexivity.
    all: first [ exists 1%nat; reflexivity
               | exists 2%nat; cbn [firstn]; rewrite <- ?app_assoc; reflexivity
               | exists 3%nat; cbn [firstn]; rewrite <- ?app_assoc; reflexivity ].
  - intros s s' r swap_id H. unfold delete_swap, bind at 1, get in H. run; try congruence;
      reflexivity.
  - intros s s' contract H. unfold set_delegated_contract, bind, get in H.
    destruct (bool_decide _); cbv [modify ret set_delegated] in H;
      injection H; intros; subst; reflexivity.
  - intros s s' r swap_id fa fb H. unfold accept_swap, bind at 1, get in H.
    destruct (swaps s !! swap_id) as [sw |] eqn:Hsw; [destruct sw |]; run; try congruence.
    all: cbn [Partial.token_a Partial.token_b Partial.creator].
    all: first [ exists 0%nat; rewrite app_nil_r; reflexivity
               | exists 1%nat; reflexivity
               | exists 2%nat; cbn [firstn]; rewrite <- ?app_assoc; reflexivity ].
Qed.

(** C1, as stated, fails: after a swap of 50 token A is created, neither its
    cancellation by the creator nor its complete fill by an acceptor issues
    any transfer out of the contract's account (100). *)
Lemma custody_never_released :
  calls created = [CallBalanceOf 7 1; CallBalanceOf 8 1; CallTransfer 7 1 100 50]
  /\ ~ (exists tok to amt, In (CallTransfer tok 100 to amt) (calls deleted))
  /\ ~ (exists tok to amt, In (CallTransfer tok 100 to amt) (calls filled)).
Proof.
  split; [vm_compute; reflexivity |].
  split; intros (tok & to & amt & Hin); vm_compute in Hin;
    repeat destruct Hin as [Hin | Hin]; try discriminate Hin; contradiction.
Qed.

(** C2 (as amended).  [delete_swap] by the creator of a stored swap
    removes the record and emits [SwapDeleted] without issuing any
    cross-contract call (nothing is transferred back); a second
    [delete_swap] on the same id fails [SwapNotFound]. *)
Theorem delete_swap_by_creator env s swap_id sw
    (Hsw : swaps s !! swap_id = Some sw)
    (Hcreator : env_caller env = Partial.creator sw) :
  let s' := mkState (delete swap_id (swaps s)) (swap_count s) (delegated_contract s)
              (owner s) (calls s) (events s ++ [SwapDeleted swap_id]) in
  delete_swap env swap_id s = Done s' (Ok tt)
  /\ delete_swap env swap_id s' = Done s' (Err SwapNotFound).
Proof.
  intros s'. unfold delete_swap, bind at 1, get. rewrite Hsw.
  split.
  - rewrite bool_decide_false by (intros Hne; exact (Hne Hcreator)). reflexivity.
  - cbv [bind get ret s' swaps]. rewrite lookup_delete_eq. reflexivity.
Qed.

Lemma delete_swap_by_creator_witness :
  swaps created !! 0 = Some (mkSwap 1 7 8 50 100 10 0 0 None) /\
  env_caller env_creator = 1 /\
  delete_swap env_creator 0 created =
    Done (mkState (delete 0 (swaps created)) (swap_count created)
            (delegated_contract created) (owner created) (calls created)
            (events created ++ [SwapDeleted 0])) (Ok tt).
Proof.
  assert (Hsw : swaps created !! 0 = Some (mkSwap 1 7 8 50 100 10 0 0 None))
    by (vm_compute; reflexivity).
  split; [exact Hsw |]. split; [reflexivity |].
  exact (proj1 (delete_swap_by_creator env_creator created 0 _ Hsw eq_refl)).
Defined.

(** C2, as stated, fails: the creator's [delete_swap] of the swap created
    above issues no call, so no [amount_a] of token A goes back to it. *)
Lemma delete_swap_returns_nothing :
  delete_swap env_creator 0 created = Done deleted (Ok tt)
  /\ calls deleted = calls created
  /\ ~ In (CallTransfer 7 100 1 50) (calls deleted).
Proof.
  split; [vm_compute; reflexivity |]. split; [vm_compute; reflexivity |].
  intros Hin; vm_compute in Hin; repeat destruct Hin as [Hin | Hin];
    try discriminate Hin; contradiction.
Qed.

(** C6.  With no delegate configured, a successful [create_swap] returns
    the old [swap_count] as id, increases [swap_count] by exactly 1 and
    stores the record under the id with [expiration = block_number +
    duration].  When that sum overflows [u32] the call returns an error
    (it neither succeeds nor traps), and no record is stored and the
    counter is unchanged. *)
Theorem create_swap_count_and_expiration env answer :
  (forall s s' id token_a token_b amount_a amount_b duration allowed,
     delegated_contract s = None ->
     create_swap env answer token_a token_b amount_a amount_b duration allowed s
       = Done s' (Ok id) ->
     id = swap_count s /\ swap_count s' = swap_count s + 1
     /\ exists sw, swaps s' !! id = Some sw
                  /\ Partial.expiration sw = env_block_number env + duration)
  /\ (forall s token_a token_b amount_a amount_b duration allowed,
     delegated_contract s = None ->
     u32_max < env_block_number env + duration ->
     exists s' e, create_swap env answer token_a token_b amount_a amount_b duration
                    allowed s = Done s' (Err e)
                  /\ swaps s' = swaps s /\ swap_count s' = swap_count s).
Proof.
  split.
  - intros s s' id ta tb aa ab dur acc Hd H.
    unfold create_swap, bind at 1, get in H. rewrite Hd in H. run; try congruence.
    unfold checked_add in *.
    repeat match goal with
           | H : (if ?b then _ else _) = _ |- _ => destruct b eqn:?; try discriminate H
           end.
    repeat match goal with H : Some _ = Some _ |- _ => injection H; clear H; intros; subst end.
    split; [reflexivity | split; [reflexivity |]].
    eexists. split; [apply lookup_insert_eq | reflexivity].
  - intros s ta tb aa ab dur acc Hd Hover.
    unfold create_swap, bind at 1, get. rewrite Hd.
    assert (Hc : checked_add u32_max (env_block_number env) dur = None).
    { unfold checked_add. destruct (Z.leb_spec (env_block_number env + dur) u32_max);
        [lia | reflexivity]. }
    cbv [bindR bind ret get_balance transfer_token invoke checked_add_or get modify log_call].
    rewrite Hc.
    repeat match goal with
           | |- context [match ?x with _ => _ end] => destruct x
           | |- context [if ?b then _ else _] => destruct b
           end.
    all: do 2 eexists; split; [reflexivity | split; reflexivity].
Qed.

Lemma create_swap_count_and_expiration_witness :
  create_swap env_creator all_ok 7 8 50 100 10 None deployed = Done created (Ok 0)
  /\ swap_count created = swap_count deployed + 1.
Proof.
  assert (H : create_swap env_creator all_ok 7 8 50 100 10 None deployed = Done created (Ok 0))
    by (vm_compute; reflexivity).
  split; [exact H |].
  exact (proj1 (proj2 (proj1 (create_swap_count_and_expiration env_creator all_ok)
                              deployed created 0 7 8 50 100 10 None eq_refl H))).
Defined.

(** A successful fill keeps [accepted_a <= amount_a] and
    [accepted_b <= amount_b] of the stored record. *)
Lemma accept_swap_keeps_fill_bounds env answer s s' swap_id fill_a fill_b sw
    (Hsw : swaps s !! swap_id = Some sw)
    (Hbound : accepted_a sw <= amount_a sw /\ accepted_b sw <= amount_b sw)
    (Hok : accept_swap env answer swap_id fill_a fill_b s = Done s' (Ok tt)) :
  exists sw', swaps s' !! swap_id = Some sw'
    /\ accepted_a sw' <= amount_a sw' /\ accepted_b sw' <= amount_b sw'.
Proof.
  unfold accept_swap, bind at 1, get in Hok. rewrite Hsw in Hok. destruct sw.
  run; try congruence.
  all: unfold checked_add in *;
    repeat match goal with
           | H : (if ?b then _ else _) = _ |- _ => destruct b eqn:?; try discriminate H
           end; run.
  all: eexists; split; [apply lookup_insert_eq |]; cbn;
    rewrite ?Z.gtb_ltb, ?Z.ltb_ge in *; lia.
Qed.

(** A fill whose sums stay within [u128] and exceed a bound is refused with
    [InsufficientBalance], once the acceptor and expiration checks pass,
    and the state is left as it was (no call is issued). *)
Lemma accept_swap_rejects_excess env answer s swap_id fill_a fill_b sw
    (Hsw : swaps s !! swap_id = Some sw)
    (Hallowed : match allowed_acceptor sw with
                | Some allowed => env_caller env = allowed
                | None => True
                end)
    (Hlive : env_block_number env <= expiration sw)
    (Hfit : fill_a + accepted_a sw <= u128_max /\ fill_b + accepted_b sw <= u128_max)
    (Hexcess : amount_a sw < fill_a + accepted_a sw \/ amount_b sw < fill_b + accepted_b sw) :
  accept_swap env answer swap_id fill_a fill_b s = Done s (Err InsufficientBalance).
Proof.
  unfold accept_swap, bind at 1, get. rewrite Hsw. destruct sw; cbn in *.
  assert (Hauth : match allowed_acceptor0 with
                  | Some allowed => bool_decide (env_caller env <> allowed)
                  | None => false
                  end = false).
  { destruct allowed_acceptor0; [apply bool_decide_eq_false_2; auto | reflexivity]. }
  rewrite Hauth.
  replace (env_block_number env >? expiration0) with false
    by (symmetry; rewrite Z.gtb_ltb; apply Z.ltb_ge; lia).
  cbv [bind ret add_checked_or_panic checked_add].
  replace (fill_a + accepted_a0 <=? u128_max) with true by (symmetry; apply Z.leb_le; lia).
  destruct (Z.gtb_spec (fill_a + accepted_a0) amount_a0); [reflexivity |].
  replace (fill_b + accepted_b0 <=? u128_max) with true by (symmetry; apply Z.leb_le; lia).
  replace (fill_b + accepted_b0 >? amount_b0) with true
    by (symmetry; apply Z.gtb_lt; lia).
  reflexivity.
Qed.

(** C3 (defect).  From a fresh swap of 50 A for 100 B, a fill of 1 A
    succeeds; a following fill of [u128::MAX] A, which pushes
    [accepted_a] past [amount_a], is not refused with [InsufficientBalance]:
    the unchecked [amount_a + accepted_a] overflows and the call traps. *)
Theorem accept_swap_overflowing_fill_traps :
  accept_swap env_acceptor all_ok 0 1 0 created = Done filled_once (Ok tt)
  /\ swaps filled_once !! 0 = Some (mkSwap 1 7 8 50 100 10 1 0 None)
  /\ accept_swap env_acceptor all_ok 0 u128_max 0 filled_once = Trapped.
Proof.
  split; [vm_compute; reflexivity |]. split; vm_compute; reflexivity.
Qed.

End PartialFacts.

(** ** Facts about the single-shot contract *)

Module SingleShotFacts.
Import SingleShot.

(** The creator (account 1) at time 0, an acceptor (account 2) at time 5;
    token A is account 7, token B account 8. *)
Definition ss_creator : Env := mkEnv 1 0.
Definition ss_acceptor : Env := mkEnv 2 5.

(** Every call succeeds; balances are 1000. *)
Definition ss_all_ok : Oracle := fun _ c =>
  match c with
  | CallBalanceOf _ _ => Some 1000
  | CallTransferFrom _ _ _ _ => Some 0
  end.

Definition ss_after {A} (o : outcome State A) : State :=
  match o with
  | Done s _ => s
  | Trapped => new
  end.

(** A swap of 50 A for 100 B lasting 10 time units, stored as id 0. *)
Definition ss_created : State :=
  ss_after (create_swap ss_creator ss_all_ok 7 8 50 100 10 new).

Definition ss_accepted : State :=
  ss_after (accept_swap ss_acceptor ss_all_ok (hash_of_count 0) ss_created).

Ltac ss_run :=
  repeat (progress cbv [bind ret get modify trap fire assert add_checked_or_panic
                         checked_add set_swaps set_swap_count] in *
          || match goal with
             | H : Done _ _ = Done _ _ |- _ => injection H; clear H; intros; subst
             | H : Trapped = Done _ _ |- _ => discriminate H
             | H : context [match ?x with _ => _ end] |- _ => destruct x eqn:?
             end);
  cbn [calls swaps swap_count] in *.

(** C4 (as amended).  A successful single-shot [accept_swap] issues, in
    order, the [balance_of] queries on token B and token A and the two
    [transfer_from] calls, each while the registry is exactly as before the
    call and so still holds the targeted id; only afterwards is the record
    removed. *)
Theorem accept_swap_calls_before_removal env answer s swap_id sw s'
    (Hsw : swaps s !! swap_id = Some sw)
    (Hdone : accept_swap env answer swap_id s = Done s' tt) :
  let caller := env_caller env in
  calls s' = calls s ++
    [(CallBalanceOf (token_b sw) caller, swaps s);
     (CallBalanceOf (token_a sw) caller, swaps s);
     (CallTransferFrom (token_a sw) caller (token_b sw) (amount_a sw), swaps s);
     (CallTransferFrom (token_b sw) caller (token_a sw) (amount_b sw), swaps s)]
  /\ swaps s' = delete swap_id (swaps s)
  /\ Forall (fun cr => is_Some (snd cr !! swap_id)) (drop (length (calls s)) (calls s')).
Proof.
  intros caller. unfold accept_swap in Hdone. cbv [bind get] in Hdone.
  rewrite Hsw in Hdone. ss_run.
  assert (Hcalls : ((((calls s ++ [(CallBalanceOf (token_b sw) (env_caller env), swaps s)])
             ++ [(CallBalanceOf (token_a sw) (env_caller env), swaps s)])
             ++ [(CallTransferFrom (token_a sw) (env_caller env) (token_b sw) (amount_a sw),
                  swaps s)])
             ++ [(CallTransferFrom (token_b sw) (env_caller env) (token_a sw) (amount_b sw),
                  swaps s)])
          = calls s ++
    [(CallBalanceOf (token_b sw) caller, swaps s);
     (CallBalanceOf (token_a sw) caller, swaps s);
     (CallTransferFrom (token_a sw) caller (token_b sw) (amount_a sw), swaps s);
     (CallTransferFrom (token_b sw) caller (token_a sw) (amount_b sw), swaps s)])
    by (rewrite <- !app_assoc; reflexivity).
  rewrite Hcalls. split; [reflexivity | split; [reflexivity |]].
  rewrite drop_app_length.
  repeat apply List.Forall_cons; try apply List.Forall_nil; cbv beta; cbn [snd];
    rewrite Hsw; eauto.
Qed.

Lemma accept_swap_calls_before_removal_witness :
  swaps ss_created !! hash_of_count 0 = Some (mkSwap 1 7 8 50 100 10)
  /\ accept_swap ss_acceptor ss_all_ok (hash_of_count 0) ss_created = Done ss_accepted tt
  /\ swaps ss_accepted = delete (hash_of_count 0) (swaps ss_created).
Proof.
  assert (Hsw : swaps ss_created !! hash_of_count 0 = Some (mkSwap 1 7 8 50 100 10))
    by (vm_compute; reflexivity).
  assert (Hd : accept_swap ss_acceptor ss_all_ok (hash_of_count 0) ss_created
                 = Done ss_accepted tt) by (vm_compute; reflexivity).
  split; [exact Hsw | split; [exact Hd |]].
  exact (proj1 (proj2 (accept_swap_calls_before_removal ss_acceptor ss_all_ok ss_created
                         (hash_of_count 0) _ _ Hsw Hd))).
Defined.

(** C4, as stated, fails: in this run the first external call of
    [accept_swap] (the [balance_of] query on token B) is made while the
    registry still holds swap 0. *)
Lemma accept_swap_queries_with_record_present :
  accept_swap ss_acceptor ss_all_ok (hash_of_count 0) ss_created = Done ss_accepted tt
  /\ exists reg, nth_error (calls ss_accepted) 1 = Some (CallBalanceOf 8 2, reg)
                 /\ reg !! hash_of_count 0 = Some (mkSwap 1 7 8 50 100 10).
Proof.
  split; [vm_compute; reflexivity |].
  eexists. split; [vm_compute; reflexivity | vm_compute; reflexivity].
Qed.

(** C10.  A [balance_of] call that fails to execute ([None]) is read as a
    balance of 0 by [unwrap_or_default]:
    - the outcome of [create_swap] depends on its one query only through
      [unwrap_or_default], so a failed query and a genuine 0 give the same
      outcome;
    - in [create_swap] and at both queries of [accept_swap], a failed or a
      zero answer makes the call abort (trap) whenever the required amount
      is positive. *)
Theorem balance_failure_reads_as_zero env :
  (forall answer1 answer2 s token_a token_b amount_a amount_b duration,
     let q := CallBalanceOf token_a (env_caller env) in
     unwrap_or_default (answer1 (map fst (calls s)) q)
       = unwrap_or_default (answer2 (map fst (calls s)) q) ->
     create_swap env answer1 token_a token_b amount_a amount_b duration s
       = create_swap env answer2 token_a token_b amount_a amount_b duration s)
  /\ (forall answer s token_a token_b amount_a amount_b duration,
     let q := CallBalanceOf token_a (env_caller env) in
     0 < amount_a ->
     answer (map fst (calls s)) q = None \/ answer (map fst (calls s)) q = Some 0 ->
     create_swap env answer token_a token_b amount_a amount_b duration s = Trapped)
  /\ (forall answer s swap_id sw,
     let qb := CallBalanceOf (token_b sw) (env_caller env) in
     swaps s !! swap_id = Some sw ->
     0 < amount_b sw ->
     answer (map fst (calls s)) qb = None \/ answer (map fst (calls s)) qb = Some 0 ->
     accept_swap env answer swap_id s = Trapped)
  /\ (forall answer s swap_id sw,
     let qb := CallBalanceOf (token_b sw) (env_caller env) in
     let qa := CallBalanceOf (token_a sw) (env_caller env) in
     swaps s !! swap_id = Some sw ->
     0 < amount_a sw ->
     answer (map fst (calls s) ++ [qb]) qa = None
       \/ answer (map fst (calls s) ++ [qb]) qa = Some 0 ->
     accept_swap env answer swap_id s = Trapped).
Proof.
  split; [| split; [| split]].
  - intros answer1 answer2 s ta tb aa ab dur q Hq.
    unfold create_swap. cbv [bind fire]. subst q. rewrite Hq. reflexivity.
  - intros answer s ta tb aa ab dur q Hpos Hq.
    unfold create_swap. cbv [bind fire assert].
    assert (H0 : unwrap_or_default (answer (map fst (calls s)) q) = 0)
      by (destruct Hq as [Hq | Hq]; rewrite Hq; reflexivity).
    subst q. rewrite H0.
    replace (aa <=? 0) with false by (symmetry; apply Z.leb_gt; lia). reflexivity.
  - intros answer s swap_id sw qb Hsw Hpos Hq.
    unfold accept_swap. cbv [bind get fire assert ret trap]. rewrite Hsw.
    assert (H0 : unwrap_or_default (answer (map fst (calls s)) qb) = 0)
      by (destruct Hq as [Hq | Hq]; rewrite Hq; reflexivity).
    subst qb. rewrite H0.
    replace (amount_b sw <=? 0) with false by (symmetry; apply Z.leb_gt; lia).
    reflexivity.
  - intros answer s swap_id sw qb qa Hsw Hpos Hq.
    unfold accept_swap. cbv [bind get fire assert ret trap]. rewrite Hsw.
    destruct (amount_b sw <=? unwrap_or_default _); [| reflexivity].
    cbn [swaps calls swap_count]. rewrite map_app. cbn [map fst].
    assert (H0 : unwrap_or_default (answer (map fst (calls s) ++ [qb]) qa) = 0)
      by (destruct Hq as [Hq | Hq]; rewrite Hq; reflexivity).
    subst qb qa. rewrite H0.
    replace (amount_a sw <=? 0) with false by (symmetry; apply Z.leb_gt; lia).
    reflexivity.
Qed.

End SingleShotFacts.

(** ** Further facts about the partial-fill contract *)

Module PartialExtra.
Import Partial Scenarios.

(** Every stored id is below [swap_count] (and not negative). *)
Definition ids_below (s : State) : Prop :=
  forall k sw, swaps s !! k = Some sw -> 0 <= k < swap_count s.

(** A deployment whose counter has reached [u64::MAX]. *)
Definition deployed_at_max : State := mkState ∅ u64_max None 1 [] [].

(** A swap only account 3 may accept. *)
Definition created_for_3 : State :=
  after_outcome (create_swap env_creator all_ok 7 8 50 100 10 (Some 3) deployed).

Ltac xrun_cbn :=
  cbv [bind ret get modify trap bindR invoke get_balance transfer_token
       checked_add_or add_checked_or_panic emit_event log_call set_swaps
       set_swap_count set_delegated] in *.

Ltac xrun_step :=
  match goal with
  | H : Done _ _ = Done _ _ |- _ => injection H; clear H; intros; subst
  | H : Trapped = Done _ _ |- _ => discriminate H
  | H : Done _ _ = Trapped |- _ => discriminate H
  | H : Ok _ = Ok _ |- _ => injection H; clear H; intros; subst
  | H : Some _ = Some _ |- _ => injection H; clear H; intros; subst
  | H : context [match ?x with _ => _ end] |- _ => destruct x eqn:?
  end.

Ltac xrun := repeat (progress xrun_cbn || xrun_step);
  cbn [calls swaps swap_count events delegated_contract owner] in *.

(** [checked_add] facts left by [xrun], turned into arithmetic. *)
Ltac checked_facts :=
  unfold checked_add in *;
  repeat match goal with
         | H : (if ?b then _ else _) = _ |- _ => destruct b eqn:?; try discriminate H
         end;
  xrun; rewrite ?Z.gtb_ltb, ?Z.ltb_ge, ?Z.ltb_lt, ?Z.leb_le, ?Z.leb_gt in *.

(** [set_delegated_contract] by anyone but the owner changes nothing and
    reports nothing; by the owner it changes only [delegated_contract]. *)
Theorem set_delegated_contract_owner_only env s contract :
  (env_caller env <> owner s -> set_delegated_contract env contract s = Done s tt)
  /\ (env_caller env = owner s ->
      set_delegated_contract env contract s
        = Done (mkState (swaps s) (swap_count s) (Some contract) (owner s)
                  (calls s) (events s)) tt).
Proof.
  unfold set_delegated_contract, bind, get. split; intros H.
  - rewrite bool_decide_false by exact H. reflexivity.
  - rewrite bool_decide_true by exact H. reflexivity.
Qed.

(** [create_swap], [delete_swap] and [accept_swap] never change the owner or
    the delegate setting, whatever they return. *)
Theorem swap_operations_keep_configuration env answer s :
  (forall s' r token_a token_b amount_a amount_b duration allowed,
     create_swap env answer token_a token_b amount_a amount_b duration allowed s
       = Done s' r ->
     owner s' = owner s /\ delegated_contract s' = delegated_contract s)
  /\ (forall s' r swap_id, delete_swap env swap_id s = Done s' r ->
     owner s' = owner s /\ delegated_contract s' = delegated_contract s)
  /\ (forall s' r swap_id fill_a fill_b, accept_swap env answer swap_id fill_a fill_b s = Done s' r ->
     owner s' = owner s /\ delegated_contract s' = delegated_contract s).
Proof.
  split; [| split].
  - intros s' r ta tb aa ab dur acc H. unfold create_swap, bind at 1, get in H.
    destruct (delegated_contract s) eqn:Hd; xrun; rewrite ?Hd; auto.
  - intros s' r id H. unfold delete_swap, bind at 1, get in H. xrun; auto.
  - intros s' r id fa fb H. unfold accept_swap, bind at 1, get in H.
    destruct (swaps s !! id) as [[] |]; xrun; auto.
Qed.

(** [delete_swap] of a missing id returns [SwapNotFound], and by anyone but
    the swap's creator returns [Unauthorized]; either way the state is left
    exactly as it was. *)
Theorem delete_swap_rejections env s swap_id :
  (swaps s !! swap_id = None -> delete_swap env swap_id s = Done s (Err SwapNotFound))
  /\ (forall sw, swaps s !! swap_id = Some sw -> env_caller env <> creator sw ->
      delete_swap env swap_id s = Done s (Err Unauthorized)).
Proof.
  unfold delete_swap, bind, get. split.
  - intros H. rewrite H. reflexivity.
  - intros sw H Hne. rewrite H, bool_decide_true by exact Hne. reflexivity.
Qed.

(** [accept_swap] refuses, before any cross-contract call and leaving the
    state exactly as it was: a missing id with [SwapNotFound]; a caller
    other than the allowed acceptor with [Unauthorized]; an authorised
    caller after the expiration block with [SwapExpired]. *)
Theorem accept_swap_rejections env answer s swap_id fill_a fill_b :
  (swaps s !! swap_id = None ->
     accept_swap env answer swap_id fill_a fill_b s = Done s (Err SwapNotFound))
  /\ (forall sw allowed, swaps s !! swap_id = Some sw ->
     allowed_acceptor sw = Some allowed -> env_caller env <> allowed ->
     accept_swap env answer swap_id fill_a fill_b s = Done s (Err Unauthorized))
  /\ (forall sw, swaps s !! swap_id = Some sw ->
     match allowed_acceptor sw with
     | Some allowed => env_caller env = allowed
     | None => True
     end ->
     expiration sw < env_block_number env ->
     accept_swap env answer swap_id fill_a fill_b s = Done s (Err SwapExpired)).
Proof.
  cbv [accept_swap bind get]. split; [| split].
  - intros H. rewrite H. reflexivity.
  - intros sw allowed H Ha Hne. rewrite H. destruct sw; cbn in *. subst.
    rewrite bool_decide_true by exact Hne. reflexivity.
  - intros sw H Ha Hexp. rewrite H. destruct sw; cbn in *.
    assert (Hauth : match allowed_acceptor0 with
                    | Some allowed => bool_decide (env_caller env <> allowed)
                    | None => false
                    end = false).
    { destruct allowed_acceptor0; [apply bool_decide_eq_false_2; auto | reflexivity]. }
    rewrite Hauth.
    replace (env_block_number env >? expiration0) with true
      by (symmetry; apply Z.gtb_lt; lia).
    reflexivity.
Qed.

Lemma accept_swap_rejections_witness :
  swaps created_for_3 !! 0 = Some (mkSwap 1 7 8 50 100 10 0 0 (Some 3))
  /\ accept_swap env_acceptor all_ok 0 20 40 created_for_3
       = Done created_for_3 (Err Unauthorized).
Proof.
  assert (H : swaps created_for_3 !! 0 = Some (mkSwap 1 7 8 50 100 10 0 0 (Some 3)))
    by (vm_compute; reflexivity).
  split; [exact H |].
  apply (proj1 (proj2 (accept_swap_rejections env_acceptor all_ok created_for_3 0 20 40))
           _ 3 H eq_refl).
  cbv. discriminate.
Defined.

(** A successful [accept_swap] writes back the record with both fills
    added to [accepted_a] and [accepted_b] (every other field and every
    other id untouched, the record is kept), issues exactly the two
    transfers from the caller to the creator, and emits [SwapAccepted]. *)
Theorem accept_swap_success_effect env answer s s' swap_id fill_a fill_b sw
    (Hsw : swaps s !! swap_id = Some sw)
    (Hok : accept_swap env answer swap_id fill_a fill_b s = Done s' (Ok tt)) :
  swaps s' = <[swap_id := mkSwap (creator sw) (token_a sw) (token_b sw)
                            (amount_a sw) (amount_b sw) (expiration sw)
                            (accepted_a sw + fill_a) (accepted_b sw + fill_b)
                            (allowed_acceptor sw)]> (swaps s)
  /\ swap_count s' = swap_count s
  /\ calls s' = calls s ++ [CallTransfer (token_a sw) (env_caller env) (creator sw) fill_a;
                            CallTransfer (token_b sw) (env_caller env) (creator sw) fill_b]
  /\ events s' = events s ++ [SwapAccepted swap_id (env_caller env)].
Proof.
  unfold accept_swap, bind at 1, get in Hok. rewrite Hsw in Hok. destruct sw.
  xrun; try congruence.
  all: checked_facts; cbn; split; [reflexivity | split; [reflexivity |]];
    split; [rewrite <- app_assoc; reflexivity | reflexivity].
Qed.

Lemma accept_swap_success_effect_witness :
  swaps created !! 0 = Some (mkSwap 1 7 8 50 100 10 0 0 None)
  /\ accept_swap env_acceptor all_ok 0 20 40 created
       = Done (after_outcome (accept_swap env_acceptor all_ok 0 20 40 created)) (Ok tt)
  /\ swap_count (after_outcome (accept_swap env_acceptor all_ok 0 20 40 created))
       = swap_count created.
Proof.
  assert (Hsw : swaps created !! 0 = Some (mkSwap 1 7 8 50 100 10 0 0 None))
    by (vm_compute; reflexivity).
  assert (Hok : accept_swap env_acceptor all_ok 0 20 40 created
       = Done (after_outcome (accept_swap env_acceptor all_ok 0 20 40 created)) (Ok tt))
    by (vm_compute; reflexivity).
  split; [exact Hsw | split; [exact Hok |]].
  exact (proj1 (proj2 (accept_swap_success_effect env_acceptor all_ok created _ 0 20 40 _
                         Hsw Hok))).
Defined.

Lemma accept_swap_keeps_fill_bounds_witness :
  swaps created !! 0 = Some (mkSwap 1 7 8 50 100 10 0 0 None)
  /\ accept_swap env_acceptor all_ok 0 20 40 created
       = Done (after_outcome (accept_swap env_acceptor all_ok 0 20 40 created)) (Ok tt)
  /\ exists sw', swaps (after_outcome (accept_swap env_acceptor all_ok 0 20 40 created))
                  !! 0 = Some sw'
       /\ accepted_a sw' <= amount_a sw' /\ accepted_b sw' <= amount_b sw'.
Proof.
  assert (Hsw : swaps created !! 0 = Some (mkSwap 1 7 8 50 100 10 0 0 None))
    by (vm_compute; reflexivity).
  assert (Hok : accept_swap env_acceptor all_ok 0 20 40 created
       = Done (after_outcome (accept_swap env_acceptor all_ok 0 20 40 created)) (Ok tt))
    by (vm_compute; reflexivity).
  split; [exact Hsw | split; [exact Hok |]].
  apply (PartialFacts.accept_swap_keeps_fill_bounds env_acceptor all_ok created _ 0 20 40 _
           Hsw); [cbn; lia | exact Hok].
Defined.

Lemma accept_swap_rejects_excess_witness :
  accept_swap env_acceptor all_ok 0 60 0 created = Done created (Err InsufficientBalance).
Proof.
  assert (Hsw : swaps created !! 0 = Some (mkSwap 1 7 8 50 100 10 0 0 None))
    by (vm_compute; reflexivity).
  apply (PartialFacts.accept_swap_rejects_excess env_acceptor all_ok created 0 60 0 _ Hsw);
    cbn; [exact I | lia | vm_compute; split; discriminate | lia].
Defined.

(** A successful local [create_swap] returns the old [swap_count] as id,
    stores under it the record [(caller, token_a, token_b, amount_a,
    amount_b, block + duration, 0, 0, allowed_acceptor)] (every other id
    untouched) and emits [SwapCreated] for the id and the caller. *)
Theorem create_swap_success_effect env answer s s' id token_a token_b amount_a
    amount_b duration allowed
    (Hnodelegate : delegated_contract s = None)
    (Hok : create_swap env answer token_a token_b amount_a amount_b duration allowed s
           = Done s' (Ok id)) :
  id = swap_count s
  /\ swaps s' = <[id := mkSwap (env_caller env) token_a token_b amount_a amount_b
                          (env_block_number env + duration) 0 0 allowed]> (swaps s)
  /\ events s' = events s ++ [SwapCreated id (env_caller env)].
Proof.
  unfold create_swap, bind at 1, get in Hok. rewrite Hnodelegate in Hok.
  xrun; try congruence. checked_facts. auto.
Qed.

Lemma create_swap_success_effect_witness :
  create_swap env_creator all_ok 7 8 50 100 10 None deployed = Done created (Ok 0)
  /\ swaps created = <[0 := mkSwap 1 7 8 50 100 10 0 0 None]> (swaps deployed).
Proof.
  assert (Hok : create_swap env_creator all_ok 7 8 50 100 10 None deployed
                = Done created (Ok 0)) by (vm_compute; reflexivity).
  split; [exact Hok |].
  exact (proj1 (proj2 (create_swap_success_effect env_creator all_ok deployed created 0
                         7 8 50 100 10 None eq_refl Hok))).
Defined.

(** With no delegate, when token A's balance suffices but the creator's
    queried balance of token B is below [amount_b], [create_swap] returns
    [InsufficientBalance] after the two queries, before any transfer and
    with the registry and counter untouched. *)
Theorem create_swap_insufficient_balance_b env answer s token_a token_b amount_a
    amount_b duration allowed bal_a bal_b
    (Hnodelegate : delegated_contract s = None)
    (Ha : answer (calls s) (CallBalanceOf token_a (env_caller env)) = InvokeOk bal_a)
    (Hge : amount_a <= bal_a)
    (Hb : answer (calls s ++ [CallBalanceOf token_a (env_caller env)])
            (CallBalanceOf token_b (env_caller env)) = InvokeOk bal_b)
    (Hlt : bal_b < amount_b) :
  create_swap env answer token_a token_b amount_a amount_b duration allowed s =
    Done (log_call (CallBalanceOf token_b (env_caller env))
            (log_call (CallBalanceOf token_a (env_caller env)) s))
         (Err InsufficientBalance).
Proof.
  unfold create_swap, bind at 1, get. rewrite Hnodelegate.
  cbv [bindR bind get_balance invoke ret log_call]. cbn [calls]. rewrite Ha.
  replace (bal_a <? amount_a) with false by (symmetry; apply Z.ltb_ge; lia).
  cbn [calls]. rewrite Hb. replace (bal_b <? amount_b) with true by (symmetry; apply Z.ltb_lt; lia).
  reflexivity.
Qed.

Lemma create_swap_insufficient_balance_b_witness :
  create_swap env_creator low_balance 7 8 5 100 10 None deployed =
    Done (log_call (CallBalanceOf 8 1) (log_call (CallBalanceOf 7 1) deployed))
         (Err InsufficientBalance).
Proof.
  apply (create_swap_insufficient_balance_b env_creator low_balance deployed 7 8 5 100 10
           None 10 10); [reflexivity | reflexivity | lia | reflexivity | lia].
Defined.

(** While [swap_count] is below [u64::MAX], a [create_swap] that returns
    an error (in either mode) leaves the registry and the counter as they
    were: no record is stored when a check, a balance query, the escrow
    transfer or the expiration addition fails. *)
Theorem create_swap_error_keeps_registry env answer s s' e token_a token_b amount_a
    amount_b duration allowed
    (Hcount : swap_count s < u64_max)
    (Herr : create_swap env answer token_a token_b amount_a amount_b duration allowed s
            = Done s' (Err e)) :
  swaps s' = swaps s /\ swap_count s' = swap_count s.
Proof.
  unfold create_swap, bind at 1, get in Herr.
  destruct (delegated_contract s); xrun; try congruence; auto.
  all: checked_facts; lia.
Qed.

Lemma create_swap_error_keeps_registry_witness :
  create_swap env_creator low_balance 7 8 50 100 10 None deployed
    = Done (log_call (CallBalanceOf 7 1) deployed) (Err InsufficientBalance)
  /\ swaps (log_call (CallBalanceOf 7 1) deployed) = swaps deployed.
Proof.
  assert (H : create_swap env_creator low_balance 7 8 50 100 10 None deployed
    = Done (log_call (CallBalanceOf 7 1) deployed) (Err InsufficientBalance))
    by (vm_compute; reflexivity).
  split; [exact H |].
  assert (Hc : swap_count deployed < u64_max) by (vm_compute; reflexivity).
  exact (proj1 (create_swap_error_keeps_registry env_creator low_balance deployed
                  (log_call (CallBalanceOf 7 1) deployed) InsufficientBalance 7 8 50 100 10
                  None Hc H)).
Defined.

(** Edge case of the counter: when [swap_count] is [u64::MAX], a local
    [create_swap] whose checks, escrow transfer and expiration succeed
    stores the record under id [u64::MAX] and issues the escrow transfer,
    then fails [CallFailed] on the counter increment, leaving the record
    stored and the counter at [u64::MAX]. *)
Theorem create_swap_counter_overflow_keeps_record env answer s token_a token_b
    amount_a amount_b duration allowed bal_a bal_b v
    (Hnodelegate : delegated_contract s = None)
    (Hcount : swap_count s = u64_max)
    (Ha : answer (calls s) (CallBalanceOf token_a (env_caller env)) = InvokeOk bal_a)
    (Hge_a : amount_a <= bal_a)
    (Hb : answer (calls s ++ [CallBalanceOf token_a (env_caller env)])
            (CallBalanceOf token_b (env_caller env)) = InvokeOk bal_b)
    (Hge_b : amount_b <= bal_b)
    (Ht : answer (calls s ++ [CallBalanceOf token_a (env_caller env);
                              CallBalanceOf token_b (env_caller env)])
            (CallTransfer token_a (env_caller env) (env_account_id env) amount_a)
          = InvokeOk v)
    (Hexp : env_block_number env + duration <= u32_max) :
  exists s', create_swap env answer token_a token_b amount_a amount_b duration allowed s
               = Done s' (Err CallFailed)
    /\ swaps s' !! u64_max = Some (mkSwap (env_caller env) token_a token_b amount_a
                                     amount_b (env_block_number env + duration) 0 0 allowed)
    /\ swap_count s' = u64_max
    /\ In (CallTransfer token_a (env_caller env) (env_account_id env) amount_a) (calls s').
Proof.
  unfold create_swap, bind at 1, get. rewrite Hnodelegate.
  cbv [bindR bind get_balance transfer_token invoke ret log_call checked_add_or get modify
       set_swaps].
  cbn [calls swaps swap_count]. rewrite Ha.
  replace (bal_a <? amount_a) with false by (symmetry; apply Z.ltb_ge; lia).
  cbn [calls]. rewrite Hb.
  replace (bal_b <? amount_b) with false by (symmetry; apply Z.ltb_ge; lia).
  cbn [calls]. rewrite <- app_assoc. cbn [app]. rewrite Ht.
  unfold checked_add.
  replace (env_block_number env + duration <=? u32_max) with true
    by (symmetry; apply Z.leb_le; lia).
  cbn [swaps swap_count]. rewrite Hcount.
  replace (u64_max + 1 <=? u64_max) with false by reflexivity.
  eexists. split; [reflexivity |]. cbn [swaps swap_count calls].
  split; [apply lookup_insert_eq |]. split; [reflexivity |].
  apply in_or_app. right. left. reflexivity.
Qed.

Lemma create_swap_counter_overflow_keeps_record_witness :
  exists s', create_swap env_creator all_ok 7 8 50 100 10 None deployed_at_max
               = Done s' (Err CallFailed)
    /\ swaps s' !! u64_max = Some (mkSwap 1 7 8 50 100 10 0 0 None)
    /\ swap_count s' = u64_max
    /\ In (CallTransfer 7 1 100 50) (calls s').
Proof.
  apply (create_swap_counter_overflow_keeps_record env_creator all_ok deployed_at_max
           7 8 50 100 10 None 1000 1000 0);
    [reflexivity | reflexivity | reflexivity | lia | reflexivity | lia | reflexivity
    | vm_compute; discriminate].
Defined.

(** The registry keeps its ids below [swap_count]: this holds after
    [new], and [set_delegated_contract], [delete_swap], [accept_swap] and
    (while the counter is below [u64::MAX]) [create_swap] keep it, whatever
    they return. *)
Theorem ids_below_preserved env answer :
  ids_below (new env)
  /\ (forall s s' r token_a token_b amount_a amount_b duration allowed,
     ids_below s -> 0 <= swap_count s < u64_max ->
     create_swap env answer token_a token_b amount_a amount_b duration allowed s
       = Done s' r ->
     ids_below s')
  /\ (forall s s' r swap_id, ids_below s -> delete_swap env swap_id s = Done s' r ->
     ids_below s')
  /\ (forall s s' r swap_id fill_a fill_b, ids_below s ->
     accept_swap env answer swap_id fill_a fill_b s = Done s' r -> ids_below s')
  /\ (forall s s' contract, ids_below s ->
     set_delegated_contract env contract s = Done s' tt -> ids_below s').
Proof.
  unfold ids_below. split; [| split; [| split; [| split]]].
  - intros k sw H. cbn in H. rewrite lookup_empty in H. discriminate.
  - intros s s' r ta tb aa ab dur acc Hinv Hcount H.
    unfold create_swap, bind at 1, get in H.
    destruct (delegated_contract s); xrun; try (eapply Hinv; eassumption).
    all: checked_facts; try (eapply Hinv; eassumption); try lia.
    all: try congruence.
    all: match goal with
         | H : _ !! ?k = Some _ |- _ =>
             destruct (decide (k = swap_count s)) as [-> | Hne];
             [lia | rewrite lookup_insert_ne in H by congruence; apply Hinv in H; lia]
         end.
  - intros s s' r id Hinv H. unfold delete_swap, bind at 1, get in H.
    xrun; try (eapply Hinv; eassumption).
    match goal with
    | H : _ !! ?k = Some _ |- _ =>
        destruct (decide (k = id)) as [-> | Hne];
        [rewrite lookup_delete_eq in H; discriminate
        | rewrite lookup_delete_ne in H by congruence; eapply Hinv; eassumption]
    end.
  - intros s s' r id fa fb Hinv H. unfold accept_swap, bind at 1, get in H.
    destruct (swaps s !! id) as [sw0 |] eqn:Hsw; [destruct sw0 |]; xrun;
      try (eapply Hinv; eassumption).
    all: match goal with
         | H : _ !! ?k = Some _ |- _ =>
             destruct (decide (k = id)) as [-> | Hne];
             [eapply Hinv; eassumption
             | rewrite lookup_insert_ne in H by congruence; eapply Hinv; eassumption]
         end.
  - intros s s' c Hinv H. unfold set_delegated_contract, bind, get in H.
    destruct (bool_decide _); xrun; eapply Hinv; eassumption.
Qed.

(** Under that invariant a successful local [create_swap] never overwrites
    a stored swap: its id was free before the call. *)
Theorem create_swap_fresh_id env answer s s' id token_a token_b amount_a amount_b
    duration allowed
    (Hinv : ids_below s)
    (Hnodelegate : delegated_contract s = None)
    (Hok : create_swap env answer token_a token_b amount_a amount_b duration allowed s
           = Done s' (Ok id)) :
  swaps s !! id = None /\ is_Some (swaps s' !! id).
Proof.
  unfold create_swap, bind at 1, get in Hok. rewrite Hnodelegate in Hok.
  xrun; try congruence. checked_facts.
  split.
  - destruct (swaps s !! swap_count s) as [sw |] eqn:E; [| reflexivity].
    apply Hinv in E. lia.
  - rewrite lookup_insert_eq. eauto.
Qed.

Lemma create_swap_fresh_id_witness :
  ids_below deployed /\ swaps deployed !! 0 = None /\ is_Some (swaps created !! 0).
Proof.
  assert (Hinv : ids_below deployed).
  { intros k sw H. vm_compute in H. discriminate. }
  split; [exact Hinv |].
  apply (create_swap_fresh_id env_creator all_ok deployed created 0 7 8 50 100 10 None Hinv
           eq_refl); vm_compute; reflexivity.
Defined.

End PartialExtra.

(** ** Further facts about the single-shot contract *)

Module SingleShotExtra.
Import SingleShot SingleShotFacts.

(** Reading a list of bytes as a big-endian number (the inverse of
    [be_bytes] on its range). *)
Definition be_value (l : list Z) : Z :=
  fold_left (fun acc b => acc * 256 + b) l 0.

(** The counter is a [u64], and every stored id is the hash of a counter
    value below it. *)
Definition ss_ids_below (s : State) : Prop :=
  0 <= swap_count s <= u64_max /\
  forall h sw, swaps s !! h = Some sw -> exists k, 0 <= k < swap_count s /\ h = hash_of_count k.

(** Token transfers are refused ([ink_env::Error]); balances are 1000. *)
Definition ss_transfers_fail : Oracle := fun _ c =>
  match c with
  | CallBalanceOf _ _ => Some 1000
  | CallTransferFrom _ _ _ _ => None
  end.

Lemma be_value_snoc l b : be_value (l ++ [b]) = be_value l * 256 + b.
Proof. unfold be_value. rewrite fold_left_app. reflexivity. Qed.

Lemma be_bytes_length k n : length (be_bytes k n) = k.
Proof.
  revert n. induction k as [| k IH]; intros n; [reflexivity |].
  cbn [be_bytes]. rewrite length_app, IH. cbn. lia.
Qed.

Lemma be_value_be_bytes k n : 0 <= n < 256 ^ Z.of_nat k -> be_value (be_bytes k n) = n.
Proof.
  revert n. induction k as [| k IH]; intros n Hn.
  - cbn in *. lia.
  - cbn [be_bytes]. rewrite be_value_snoc, IH.
    + pose proof (Z.div_mod n 256 ltac:(lia)). lia.
    + rewrite Nat2Z.inj_succ, Z.pow_succ_r in Hn by lia.
      split; [apply Z.div_pos; lia | apply Z.div_lt_upper_bound; lia].
Qed.

Lemma hash_of_count_decode n : 0 <= n < 2 ^ 64 -> be_value (take 8 (hash_of_count n)) = n.
Proof.
  intros Hn. unfold hash_of_count.
  rewrite take_app_length' by (symmetry; apply be_bytes_length).
  apply be_value_be_bytes. cbn. lia.
Qed.

(** Swap ids are 32 bytes, and distinct counter values in the [u64] range
    give distinct ids: the first 8 bytes hold the counter big-endian. *)
Theorem hash_of_count_injective n m
    (Hn : 0 <= n < 2 ^ 64) (Hm : 0 <= m < 2 ^ 64)
    (Heq : hash_of_count n = hash_of_count m) :
  n = m /\ length (hash_of_count n) = 32%nat.
Proof.
  split.
  - rewrite <- (hash_of_count_decode n Hn), <- (hash_of_count_decode m Hm), Heq.
    reflexivity.
  - unfold hash_of_count. rewrite length_app, be_bytes_length, length_replicate.
    reflexivity.
Qed.

Lemma hash_of_count_injective_witness :
  hash_of_count 5 = [0; 0; 0; 0; 0; 0; 0; 5] ++ replicate 24 0 /\ 5 = 5.
Proof.
  split; [vm_compute; reflexivity |].
  exact (proj1 (hash_of_count_injective 5 5 ltac:(lia) ltac:(lia) eq_refl)).
Defined.

(** [create_swap] aborts when the creator's queried balance of token A
    (0 if the query fails) is below [amount_a], when [block_timestamp +
    duration] overflows [u64], or when the counter is at [u64::MAX]. *)
Theorem create_swap_aborts env answer s token_a token_b amount_a amount_b duration :
  let q := CallBalanceOf token_a (env_caller env) in
  (unwrap_or_default (answer (map fst (calls s)) q) < amount_a ->
     create_swap env answer token_a token_b amount_a amount_b duration s = Trapped)
  /\ (u64_max < env_block_timestamp env + duration ->
     create_swap env answer token_a token_b amount_a amount_b duration s = Trapped)
  /\ (swap_count s = u64_max ->
     create_swap env answer token_a token_b amount_a amount_b duration s = Trapped).
Proof.
  intros q. unfold create_swap.
  cbv [bind ret get modify trap fire assert add_checked_or_panic checked_add set_swaps
       set_swap_count].
  cbn [swaps swap_count calls]. subst q.
  split; [| split]; intros H.
  - replace (amount_a <=? _) with false by (symmetry; apply Z.leb_gt; lia). reflexivity.
  - destruct (amount_a <=? _); [| reflexivity].
    replace (env_block_timestamp env + duration <=? u64_max) with false
      by (symmetry; apply Z.leb_gt; lia). reflexivity.
  - destruct (amount_a <=? _); [| reflexivity].
    destruct (env_block_timestamp env + duration <=? u64_max); [| reflexivity].
    rewrite H. reflexivity.
Qed.

(** A [create_swap] that completes stores, under the hash of the old
    counter, the record [(caller, token_a, token_b, amount_a, amount_b,
    block_timestamp + duration)], returns that hash and increases the
    counter by exactly 1; its one external call is the balance query. *)
Theorem create_swap_success env answer s s' id token_a token_b amount_a amount_b duration
    (Hdone : create_swap env answer token_a token_b amount_a amount_b duration s
             = Done s' id) :
  id = hash_of_count (swap_count s)
  /\ swap_count s' = swap_count s + 1
  /\ swaps s' = <[id := mkSwap (env_caller env) token_a token_b amount_a amount_b
                          (env_block_timestamp env + duration)]> (swaps s)
  /\ calls s' = calls s ++ [(CallBalanceOf token_a (env_caller env), swaps s)].
Proof.
  unfold create_swap in Hdone. ss_run.
  all: try discriminate.
  injection Heqo1 as <-. injection Heqo2 as <-. auto.
Qed.

Lemma create_swap_success_witness :
  create_swap ss_creator ss_all_ok 7 8 50 100 10 new = Done ss_created (hash_of_count 0)
  /\ swap_count ss_created = 1.
Proof.
  assert (H : create_swap ss_creator ss_all_ok 7 8 50 100 10 new
              = Done ss_created (hash_of_count 0)) by (vm_compute; reflexivity).
  split; [exact H |].
  exact (proj1 (proj2 (create_swap_success ss_creator ss_all_ok new ss_created _ 7 8 50 100 10
                         H))).
Defined.

(** [delete_swap] traps on an unknown id and on a caller other than the
    creator; otherwise it only removes the record: no token is moved, no
    external call is made and the counter is unchanged. *)
Theorem delete_swap_behaviour env s id :
  (swaps s !! id = None -> delete_swap env id s = Trapped)
  /\ (forall sw, swaps s !! id = Some sw -> env_caller env <> creator sw ->
        delete_swap env id s = Trapped)
  /\ (forall sw, swaps s !! id = Some sw -> env_caller env = creator sw ->
        delete_swap env id s = Done (mkState (delete id (swaps s)) (swap_count s) (calls s)) tt).
Proof.
  unfold delete_swap. cbv [bind ret get modify trap assert set_swaps].
  split; [| split].
  - intros H. rewrite H. reflexivity.
  - intros sw H Hne. rewrite H, bool_decide_false by exact Hne. reflexivity.
  - intros sw H He. rewrite H, bool_decide_true by exact He. reflexivity.
Qed.

(** [accept_swap] traps on an unknown id, and on an expired swap
    ([block_timestamp > expiration]) whatever the balances are. *)
Theorem ss_accept_swap_rejections env answer s id :
  (swaps s !! id = None -> accept_swap env answer id s = Trapped)
  /\ (forall sw, swaps s !! id = Some sw -> expiration sw < env_block_timestamp env ->
        accept_swap env answer id s = Trapped).
Proof.
  unfold accept_swap. cbv [bind ret get modify trap fire assert set_swaps].
  split.
  - intros H. rewrite H. reflexivity.
  - intros sw H Hexp. rewrite H. cbn [swaps swap_count calls].
    destruct (amount_b sw <=? _); [| reflexivity].
    destruct (amount_a sw <=? _); [| reflexivity].
    replace (env_block_timestamp env <=? expiration sw) with false
      by (symmetry; apply Z.leb_gt; exact Hexp).
    reflexivity.
Qed.

(** Once the two balance checks and the expiry check pass, [accept_swap]
    completes and removes the swap whatever the two [transfer_from] calls
    answer: their results are discarded. *)
Theorem accept_swap_ignores_transfer_results env answer s id sw
    (Hsw : swaps s !! id = Some sw)
    (Hb : amount_b sw <= unwrap_or_default
            (answer (map fst (calls s)) (CallBalanceOf (token_b sw) (env_caller env))))
    (Ha : amount_a sw <= unwrap_or_default
            (answer (map fst (calls s) ++ [CallBalanceOf (token_b sw) (env_caller env)])
                    (CallBalanceOf (token_a sw) (env_caller env))))
    (Ht : env_block_timestamp env <= expiration sw) :
  accept_swap env answer id s
  = Done (mkState (delete id (swaps s)) (swap_count s)
            (calls s ++ [(CallBalanceOf (token_b sw) (env_caller env), swaps s);
                         (CallBalanceOf (token_a sw) (env_caller env), swaps s);
                         (CallTransferFrom (token_a sw) (env_caller env) (token_b sw)
                            (amount_a sw), swaps s);
                         (CallTransferFrom (token_b sw) (env_caller env) (token_a sw)
                            (amount_b sw), swaps s)])) tt.
Proof.
  unfold accept_swap. cbv [bind ret get modify trap fire assert set_swaps].
  rewrite Hsw. cbn [swaps swap_count calls].
  replace (amount_b sw <=? _) with true by (symmetry; apply Z.leb_le; exact Hb).
  cbn [swaps swap_count calls]. rewrite map_app. cbn [map fst].
  replace (amount_a sw <=? _) with true by (symmetry; apply Z.leb_le; exact Ha).
  replace (env_block_timestamp env <=? expiration sw) with true
    by (symmetry; apply Z.leb_le; exact Ht).
  cbn [swaps swap_count calls]. rewrite <- !app_assoc. reflexivity.
Qed.

Lemma accept_swap_ignores_transfer_results_witness :
  swaps ss_created !! hash_of_count 0 = Some (mkSwap 1 7 8 50 100 10)
  /\ exists s', accept_swap ss_acceptor ss_transfers_fail (hash_of_count 0) ss_created
                = Done s' tt /\ swaps s' = ∅.
Proof.
  assert (H : swaps ss_created !! hash_of_count 0 = Some (mkSwap 1 7 8 50 100 10))
    by (vm_compute; reflexivity).
  split; [exact H |].
  eexists. split.
  - exact (accept_swap_ignores_transfer_results ss_acceptor ss_transfers_fail ss_created
             (hash_of_count 0) (mkSwap 1 7 8 50 100 10) H
             ltac:(vm_compute; congruence) ltac:(vm_compute; congruence)
             ltac:(vm_compute; congruence)).
  - vm_compute. reflexivity.
Defined.

Lemma create_swap_done env answer s s' id token_a token_b amount_a amount_b duration :
  create_swap env answer token_a token_b amount_a amount_b duration s = Done s' id ->
  id = hash_of_count (swap_count s)
  /\ swap_count s + 1 <= u64_max
  /\ swap_count s' = swap_count s + 1
  /\ swaps s' = <[id := mkSwap (env_caller env) token_a token_b amount_a amount_b
                          (env_block_timestamp env + duration)]> (swaps s).
Proof.
  intros Hdone. unfold create_swap in Hdone. ss_run.
  all: try discriminate.
  injection Heqo1 as <-. injection Heqo2 as <-.
  split; [reflexivity |]. split; [apply Z.leb_le; assumption |]. auto.
Qed.

Lemma accept_swap_done env answer s s' id u :
  accept_swap env answer id s = Done s' u -> swaps s' = delete id (swaps s).
Proof. intros Hdone. unfold accept_swap in Hdone. ss_run. all: congruence. Qed.

Lemma delete_swap_done env s s' id u :
  delete_swap env id s = Done s' u ->
  swaps s' = delete id (swaps s) /\ swap_count s' = swap_count s.
Proof. intros Hdone. unfold delete_swap in Hdone. ss_run. all: try congruence. auto. Qed.

(** A completed [accept_swap] removes the swap: accepting it again, or
    deleting it, then traps. *)
Theorem accept_swap_single_use env answer s s' id u
    (Hdone : accept_swap env answer id s = Done s' u) :
  swaps s' !! id = None
  /\ (forall env' answer', accept_swap env' answer' id s' = Trapped)
  /\ (forall env', delete_swap env' id s' = Trapped).
Proof.
  assert (Hnone : swaps s' !! id = None).
  { rewrite (accept_swap_done _ _ _ _ _ _ Hdone). apply lookup_delete_eq. }
  split; [exact Hnone | split].
  - intros env' answer'. unfold accept_swap. cbv [bind get trap]. rewrite Hnone. reflexivity.
  - intros env'. unfold delete_swap. cbv [bind get trap]. rewrite Hnone. reflexivity.
Qed.

Lemma accept_swap_single_use_witness :
  swaps ss_accepted !! hash_of_count 0 = None.
Proof.
  exact (proj1 (accept_swap_single_use ss_acceptor ss_all_ok ss_created ss_accepted
                  (hash_of_count 0) tt ltac:(vm_compute; reflexivity))).
Defined.

(** The id invariant holds after [new] and is kept by every operation that
    completes. *)
Theorem ss_ids_below_preserved :
  ss_ids_below new
  /\ (forall env answer s s' id ta tb aa ab d, ss_ids_below s ->
        create_swap env answer ta tb aa ab d s = Done s' id -> ss_ids_below s')
  /\ (forall env s s' id u, ss_ids_below s ->
        delete_swap env id s = Done s' u -> ss_ids_below s')
  /\ (forall env answer s s' id u, ss_ids_below s ->
        accept_swap env answer id s = Done s' u -> ss_ids_below s').
Proof.
  unfold ss_ids_below. split; [| split; [| split]].
  - split; [cbn; unfold u64_max; lia |]. intros h sw H. cbn in H.
    rewrite lookup_empty in H. discriminate.
  - intros env answer s s' id ta tb aa ab d [Hc Hids] Hdone.
    destruct (create_swap_done _ _ _ _ _ _ _ _ _ _ Hdone) as (-> & Hle & Hcnt & Hsw).
    rewrite Hcnt. split; [lia |]. intros h sw H. rewrite Hsw in H.
    destruct (decide (h = hash_of_count (swap_count s))) as [-> | Hne].
    + exists (swap_count s). split; [lia | reflexivity].
    + rewrite lookup_insert_ne in H by congruence.
      destruct (Hids h sw H) as (k & Hk & ->). exists k. split; [lia | reflexivity].
  - intros env s s' id u [Hc Hids] Hdone.
    destruct (delete_swap_done _ _ _ _ _ Hdone) as [Hsw Hcnt].
    rewrite Hcnt. split; [exact Hc |]. intros h sw H. rewrite Hsw in H.
    apply lookup_delete_Some in H as [_ H]. exact (Hids h sw H).
  - intros env answer s s' id u [Hc Hids] Hdone.
    assert (Hcnt : swap_count s' = swap_count s).
    { unfold accept_swap in Hdone. ss_run. all: congruence. }
    rewrite Hcnt, (accept_swap_done _ _ _ _ _ _ Hdone). split; [exact Hc |].
    intros h sw H. apply lookup_delete_Some in H as [_ H]. exact (Hids h sw H).
Qed.

(** Under the id invariant, [create_swap] never overwrites a stored swap:
    the id it returns was free. *)
Theorem create_swap_never_overwrites env answer s s' id token_a token_b amount_a amount_b duration
    (Hinv : ss_ids_below s)
    (Hdone : create_swap env answer token_a token_b amount_a amount_b duration s = Done s' id) :
  swaps s !! id = None.
Proof.
  destruct Hinv as [Hc Hids].
  destruct (create_swap_done _ _ _ _ _ _ _ _ _ _ Hdone) as (-> & Hle & _).
  destruct (swaps s !! hash_of_count (swap_count s)) as [sw |] eqn:E; [| reflexivity].
  destruct (Hids _ sw E) as (k & Hk & Heq).
  assert (Hd : be_value (take 8 (hash_of_count (swap_count s)))
               = be_value (take 8 (hash_of_count k))) by (rewrite Heq; reflexivity).
  unfold u64_max in *.
  rewrite !hash_of_count_decode in Hd by lia. lia.
Qed.

Lemma create_swap_never_overwrites_witness :
  swaps ss_created !! hash_of_count 1 = None.
Proof.
  refine (create_swap_never_overwrites ss_creator ss_all_ok ss_created
            (ss_after (create_swap ss_creator ss_all_ok 7 8 50 100 10 ss_created))
            (hash_of_count 1) 7 8 50 100 10 _ ltac:(vm_compute; reflexivity)).
  split; [vm_compute; split; congruence |].
  intros h sw H. exists 0. split; [vm_compute; split; congruence |].
  assert (E : swaps ss_created = <[hash_of_count 0 := mkSwap 1 7 8 50 100 10]> ∅)
    by (vm_compute; reflexivity).
  rewrite E in H. destruct (decide (h = hash_of_count 0)) as [-> | Hne]; [reflexivity |].
  exfalso. rewrite lookup_insert_ne in H by congruence.
  rewrite lookup_empty in H. discriminate.
Defined.

End SingleShotExtra.
